(** * The version/alias registry of mike (multi-project fork)

    A shallow embedding of [src/mike/versions.py]: the class [VersionInfo]
    (one deployed version: identifier, title, alias set, properties) and the
    class [Versions] (the registry, a dict of component buckets).

    Python objects are mutated in place and exceptions leave behind whatever
    was mutated before the [raise]; both classes are therefore embedded in a
    state-and-exception monad whose failures carry the state reached at the
    point of the raise. *)

From Stdlib Require Import ZArith Ascii String List.
From stdpp Require Import base option list strings gmap fin_maps fin_sets.

Local Open Scope string_scope.

(** ** Exceptions *)

Inductive name_kind := KVersion | KAlias.

(** The messages of the [ValueError]s raised in [versions.py], one
    constructor per [raise] site. *)
Inductive value_error :=
| NotValid (name : string) (kind : name_kind)
| DuplicatedVersionAndAlias
| VersionExistsAsAlias (v component : string)
| AliasIsVersion (alias component : string)
| AliasExists (alias owner component : string)
| VersionNotFound (identifier component : string)
| VersionsNotFound (missing : list string) (component : string).

Inductive exn :=
| ValueError (e : value_error)
| KeyError (k : string)
| TypeError
| AttributeError
| IndexError.

Inductive result (A : Type) :=
| Ok (a : A)
| Err (e : exn).
Arguments Ok {A} a.
Arguments Err {A} e.

#[export] Instance result_ret : MRet result := @Ok.
#[export] Instance result_bind : MBind result := λ A B f r,
  match r with Ok a => f a | Err e => Err e end.

(** ** Mutable state with exceptions

    [M S A] is a method running on a mutable object of type [S]: it returns
    a value or raises, and in both cases hands back the object as the body
    left it. *)

Definition M (S A : Type) : Type := S → result A * S.

#[export] Instance M_ret {S} : MRet (M S) := λ A a s, (Ok a, s).
#[export] Instance M_bind {S} : MBind (M S) := λ A B f m s,
  match m s with
  | (Ok a, s') => f a s'
  | (Err e, s') => (Err e, s')
  end.

Definition raise {S A} (e : exn) : M S A := λ s, (Err e, s).
Definition get {S} : M S S := λ s, (Ok s, s).
Definition put {S} (s : S) : M S unit := λ _, (Ok (), s).
Definition lift {S A} (r : result A) : M S A := λ s, (r, s).

(** [for x in l: body x] *)
Fixpoint for_each {S A} (l : list A) (body : A → M S unit) : M S unit :=
  match l with
  | [] => mret ()
  | x :: l' => body x;; for_each l' body
  end.

Fixpoint for_each_r {A} (l : list A) (body : A → result unit) : result unit :=
  match l with
  | [] => Ok ()
  | x :: l' => body x;; for_each_r l' body
  end.

(** ** JSON-compatible Python values

    The values [json.loads] produces and [json.dumps] accepts (floats are
    left out).  A dict is kept as the list of its items in insertion order;
    keys are strings. *)

#[warnings="-register-all"] Inductive pyval :=
| PNone
| PBool (b : bool)
| PInt (n : Z)
| PStr (s : string)
| PList (l : list pyval)
| PDict (d : list (string * pyval)).

(** Python truth value: [None], [False], [0], [''], [[]] and [{}] are
    falsy. *)
Definition truthy (v : pyval) : bool :=
  match v with
  | PNone => false
  | PBool b => b
  | PInt n => negb (n =? 0)%Z
  | PStr s => negb (String.eqb s "")
  | PList l => negb (bool_decide (l = []))
  | PDict d => negb (bool_decide (d = []))
  end.

(** [d[k]] on a dict given by its items: [KeyError] when absent. *)
Fixpoint dict_get (d : list (string * pyval)) (k : string) : option pyval :=
  match d with
  | [] => None
  | (k', v) :: d' => if String.eqb k' k then Some v else dict_get d' k
  end.

Definition has_key (v : pyval) (k : string) : bool :=
  match v with
  | PDict d => bool_decide (is_Some (dict_get d k))
  | _ => false
  end.

(** [data[k]]: only dicts are subscriptable by a string. *)
Definition getitem (data : pyval) (k : string) : result pyval :=
  match data with
  | PDict d => match dict_get d k with Some v => Ok v | None => Err (KeyError k) end
  | _ => Err TypeError
  end.

(** [data.get(k)]: [None] when the key is absent. *)
Definition dict_get_or_none (data : pyval) (k : string) : result pyval :=
  match data with
  | PDict d => Ok (default PNone (dict_get d k))
  | _ => Err AttributeError
  end.

(** Readers for the fields of the persisted format (§6 of the spec): the
    version is a string, the title a string (or null), the aliases an array
    of strings.  The embedding covers documents of that shape; for a field
    of another shape the model stops with [TypeError]. *)
Definition as_str (v : pyval) : result string :=
  match v with PStr s => Ok s | _ => Err TypeError end.

Definition as_opt_str (v : pyval) : result (option string) :=
  match v with PStr s => Ok (Some s) | PNone => Ok None | _ => Err TypeError end.

Fixpoint as_strs (l : list pyval) : result (list string) :=
  match l with
  | [] => Ok []
  | v :: l' => s ← as_str v; ss ← as_strs l'; Ok (s :: ss)
  end.

Definition as_str_list (v : pyval) : result (list string) :=
  match v with PList l => as_strs l | _ => Err TypeError end.

(** JSON text.  [json.dumps] and [json.loads] of the Python library are
    inverse to each other on the values of [pyval], so a text is identified
    with the document it denotes. *)
Record json_text := JsonText { json_loads : pyval }.
Definition json_dumps (v : pyval) : json_text := JsonText v.

(** [for x in v]: lists give their elements, dicts their keys, strings their
    characters; the other values are not iterable. *)
Fixpoint str_chars (s : string) : list string :=
  match s with
  | EmptyString => []
  | String c s' => String c EmptyString :: str_chars s'
  end.

Definition py_iter (v : pyval) : result (list pyval) :=
  match v with
  | PList l => Ok l
  | PDict d => Ok (PStr <$> d.*1)
  | PStr s => Ok (PStr <$> str_chars s)
  | _ => Err TypeError
  end.

(** ** VersionInfo *)

Module VersionInfo.

(** [version] holds a [LooseVersion] (package [verspec]), which keeps the
    string it was built from and gives it back with [str]; the field is
    that string. *)
Record t := mk {
  version : string;
  title : string;
  aliases : gset string;
  properties : pyval
}.

Definition is_path_sep (c : ascii) : bool :=
  Ascii.eqb c "092"%char || Ascii.eqb c "/"%char.

Fixpoint has_path_sep (s : string) : bool :=
  match s with
  | EmptyString => false
  | String c s' => is_path_sep c || has_path_sep s'
  end.

(** The condition under which [_check_version] raises. *)
Definition invalid_name (s : string) : bool :=
  String.eqb s "" || (String.eqb s "." || String.eqb s "..") || has_path_sep s.

Definition _check_version (v : string) (kind : name_kind) : result unit :=
  if invalid_name v then Err (ValueError (NotValid v kind)) else Ok ().

(** [VersionInfo(version, title, aliases, properties)] *)
Definition __init__ (v : string) (title_arg : option string)
    (aliases_arg : list string) (properties_arg : pyval) : result t :=
  _check_version v KVersion;;
  for_each_r aliases_arg (λ i, _check_version i KAlias);;
  let version_name := v in
  let self := {| version := v;
                 title := match title_arg with None => version_name | Some x => x end;
                 aliases := list_to_set aliases_arg;
                 properties := properties_arg |} in
  if decide (version self ∈ aliases self)
  then Err (ValueError DuplicatedVersionAndAlias)
  else Ok self.

Definition from_json (data : pyval) : result t :=
  v ← getitem data "version";
  ti ← getitem data "title";
  al ← getitem data "aliases";
  pr ← dict_get_or_none data "properties";
  v ← as_str v;
  ti ← as_opt_str ti;
  al ← as_str_list al;
  __init__ v ti al pr.

(** [list(self.aliases)] lists the set in an order of Python's choosing;
    [elements] is one such listing. *)
Definition to_json (self : t) : pyval :=
  let data := [("version", PStr (version self));
               ("title", PStr (title self));
               ("aliases", PList (PStr <$> elements (aliases self)))] in
  if truthy (properties self)
  then PDict (data ++ [("properties", properties self)])
  else PDict data.

Definition loads (data : json_text) : result t :=
  from_json (json_loads data).

Definition dumps (self : t) : json_text :=
  json_dumps (to_json self).

Definition set_title (x : string) : M t unit :=
  λ self, (Ok (), {| version := version self; title := x;
                     aliases := aliases self; properties := properties self |}).

Definition set_aliases (x : gset string) : M t unit :=
  λ self, (Ok (), {| version := version self; title := title self;
                     aliases := x; properties := properties self |}).

(** [self.update(title, aliases)] *)
Definition update (title_arg : option string) (aliases_arg : list string)
    : M t (gset string) :=
  lift (for_each_r aliases_arg (λ i, _check_version i KAlias));;
  match title_arg with
  | Some x => set_title x
  | None => mret ()
  end;;
  let aliases_set : gset string := list_to_set aliases_arg in
  self ← get;
  if decide (version self ∈ aliases_set)
  then raise (ValueError DuplicatedVersionAndAlias)
  else
    let added := aliases_set ∖ aliases self in
    set_aliases (aliases self ∪ aliases_set);;
    mret added.

(** [self.aliases.remove(x)]: [KeyError] when [x] is not a member. *)
Definition aliases_remove (x : string) : M t unit :=
  self ← get;
  if decide (x ∈ aliases self)
  then set_aliases (aliases self ∖ {[x]})
  else raise (KeyError x).

(** What the constructor establishes and [update] keeps. *)
Definition wf (self : t) : Prop :=
  invalid_name (version self) = false
  ∧ (∀ a, a ∈ aliases self → invalid_name a = false)
  ∧ version self ∉ aliases self.

End VersionInfo.

(** ** Versions *)

Module Versions.

(** A component bucket: [{ "1.0": VersionInfo, "dev": VersionInfo }]. *)
Abbreviation bucket := (gmap string VersionInfo.t).

(** [self._data]: [{ "component1": bucket, ... }].  Every [VersionInfo] is
    referenced from one slot of one bucket only, so buckets hold entries by
    value.  A Python dict keeps its keys in insertion order and a [gmap] does
    not; the two places that walk [self._data], [find] and [__iter__], raise
    at the first bucket they meet ([find_loop_cons], [iter_nonempty] below),
    so the order plays no part. *)
Abbreviation registry := (gmap string (gmap string VersionInfo.t)).

(** A bucket is a plain [dict]: reading an attribute [aliases], [version]
    or [to_json] of it raises [AttributeError], whatever type the caller
    expected. *)
Definition dict_getattr {A} (o : bucket) (name : string) : result A :=
  Err AttributeError.

(** Tuples of strings: the keys [(identifier,)] and [(owner, alias)]. *)
Abbreviation tuple := (list string).

Definition item (t : tuple) (n : nat) : result string :=
  match t !! n with Some x => Ok x | None => Err IndexError end.

(** Arguments that reach [find]: strings, and the literal [True]/[False]. *)
Inductive pyarg := AStr (s : string) | ABool (b : bool).

Definition str (a : pyarg) : string :=
  match a with
  | AStr s => s
  | ABool true => "True"
  | ABool false => "False"
  end.

Definition truthy_arg (a : pyarg) : bool :=
  match a with
  | AStr s => negb (String.eqb s "")
  | ABool b => b
  end.

(** The loop [for k, v in self._data.items()] of [find]. *)
Fixpoint find_loop (identifier : string) (items : list (string * bucket))
    : result (option tuple) :=
  match items with
  | [] => Ok None
  | (k, v) :: rest =>
      al ← dict_getattr (A:=gset string) v "aliases";
      if decide (identifier ∈ al) then Ok (Some [k; identifier])
      else find_loop identifier rest
  end.

(** [def find(self, identifier, strict=False)] *)
Definition find (self : registry) (identifier strict : pyarg)
    : result (option tuple) :=
  let identifier := str identifier in
  if decide (identifier ∈ dom self) then Ok (Some [identifier])
  else
    r ← find_loop identifier (map_to_list self);
    match r with
    | Some key => Ok (Some key)
    | None => if truthy_arg strict then Err (KeyError identifier) else Ok None
    end.

(** A call of [self.find] with positional arguments [pos] and perhaps a
    keyword [strict], bound against the signature of [find]: one or two positional arguments are accepted, and [strict] may
    not be given both by position and by keyword. *)
Definition call_find (self : registry) (pos : list pyarg)
    (kw_strict : option pyarg) : result (option tuple) :=
  match pos, kw_strict with
  | [identifier], None => find self identifier (ABool false)
  | [identifier], Some strict => find self identifier strict
  | [identifier; strict], None => find self identifier strict
  | _, _ => Err TypeError
  end.

(** The loop [for alias in aliases] of [_ensure_unique_aliases]. *)
Fixpoint check_aliases (self : registry) (component v : string)
    (update_aliases : bool) (aliases : list string)
    (removed_aliases : list tuple) : result (list tuple) :=
  match aliases with
  | [] => Ok removed_aliases
  | alias :: rest =>
      key ← call_find self [AStr component; AStr alias] None;
      match key with
      | Some ((k0 :: _) as k) =>
          if decide (k0 ≠ v) then
            if decide (length k = 1)
            then Err (ValueError (AliasIsVersion alias component))
            else if negb update_aliases
            then Err (ValueError (AliasExists alias k0 component))
            else check_aliases self component v update_aliases rest
                   (removed_aliases ++ [k])
          else check_aliases self component v update_aliases rest removed_aliases
      | _ => check_aliases self component v update_aliases rest removed_aliases
      end
  end.

Definition _ensure_unique_aliases (self : registry) (component v : string)
    (aliases : list string) (update_aliases : bool) : result (list tuple) :=
  key ← call_find self [AStr component; AStr v] None;
  removed_aliases ←
    match key with
    | Some ((_ :: _) as k) =>
        if decide (length k = 2) then
          if negb update_aliases
          then Err (ValueError (VersionExistsAsAlias v component))
          else Ok [k]
        else Ok []
    | _ => Ok []
    end;
  check_aliases self component v update_aliases aliases removed_aliases.

(** [self._data[component]] *)
Definition getitem_data (component : string) : M registry bucket :=
  d ← get;
  match d !! component with
  | Some b => mret b
  | None => raise (KeyError component)
  end.

(** [self._data[component][k]] *)
Definition getitem_entry (component k : string) : M registry VersionInfo.t :=
  b ← getitem_data component;
  match b !! k with
  | Some e => mret e
  | None => raise (KeyError k)
  end.

(** [self._data[component][k] = e] *)
Definition setitem_entry (component k : string) (e : VersionInfo.t)
    : M registry unit :=
  b ← getitem_data component;
  d ← get;
  put (<[component := <[k := e]> b]> d).

(** [self._data[component][k].m(...)]: the method runs on the entry stored
    in the bucket, and what it did to the entry stays, also when it
    raises. *)
Definition at_entry {A} (component k : string) (m : M VersionInfo.t A)
    : M registry A := λ d,
  match d !! component with
  | None => (Err (KeyError component), d)
  | Some b =>
      match b !! k with
      | None => (Err (KeyError k), d)
      | Some e => let '(r, e') := m e in (r, <[component := <[k := e']> b]> d)
      end
  end.

(** [if component not in self._data: self._data[component] = {}] *)
Definition ensure_component (component : string) : M registry unit :=
  d ← get;
  if decide (component ∈ dom d) then mret ()
  else put (<[component := ∅]> d).

(** [for i in removed_aliases:
       self._data[component][i[0]].aliases.remove(i[1])] *)
Definition strip_aliases (component : string) (removed_aliases : list tuple)
    : M registry unit :=
  for_each removed_aliases (λ i,
    i0 ← lift (item i 0);
    i1 ← lift (item i 1);
    at_entry component i0 (VersionInfo.aliases_remove i1)).

(** [def add(self, component, version, title=None, aliases=[],
            update_aliases=False)]; the two [print] calls are left out. *)
Definition add (component v : string) (title : option string)
    (aliases : list string) (update_aliases : bool)
    : M registry VersionInfo.t :=
  ensure_component component;;
  d ← get;
  removed_aliases ←
    lift (_ensure_unique_aliases d component v aliases update_aliases);
  b ← getitem_data component;
  (if decide (v ∈ dom b)
   then at_entry component v (VersionInfo.update title aliases);; mret ()
   else e ← lift (VersionInfo.__init__ v title aliases PNone);
        setitem_entry component v e);;
  strip_aliases component removed_aliases;;
  getitem_entry component v.

(** [def update(self, component, identifier, title=None, aliases=[],
               update_aliases=False)] *)
Definition update (component identifier : string) (title : option string)
    (aliases : list string) (update_aliases : bool)
    : M registry (gset string) :=
  d ← get;
  key ← lift (call_find d [AStr component; AStr identifier] (Some (ABool true)));
  match key with
  | Some ((k0 :: _) as k) =>
      removed_aliases ←
        lift (_ensure_unique_aliases d component k0 aliases update_aliases);
      strip_aliases component removed_aliases;;
      at_entry component k0 (VersionInfo.update title aliases)
  | _ => raise (ValueError (VersionNotFound identifier component))
  end.

(** What [_remove_by_key] hands back: the object stored under [key[0]],
    or the string [key[1]]. *)
Inductive removed :=
| RemovedItem (b : bucket)
| RemovedAlias (a : string).

(** [s.remove(x)] on a set. *)
Definition set_remove (s : gset string) (x : string) : result (gset string) :=
  if decide (x ∈ s) then Ok (s ∖ {[x]}) else Err (KeyError x).

(** [def _remove_by_key(self, key)] *)
Definition _remove_by_key (key : tuple) : M registry removed :=
  if decide (length key = 1) then
    k0 ← lift (item key 0);
    b ← getitem_data k0;
    d ← get;
    put (delete k0 d);;
    mret (RemovedItem b)
  else
    it ← lift (item key 1);
    k0 ← lift (item key 0);
    b ← getitem_data k0;
    al ← lift (dict_getattr (A:=gset string) b "aliases");
    k1 ← lift (item key 1);
    lift (set_remove al k1);;
    mret (RemovedAlias it).

(** Arguments that reach [_remove_by_key]: a component name, or what
    [find] returned.  A string is a sequence of one-character strings. *)
Inductive rk_arg := RStr (s : string) | RKey (k : option tuple).

Definition seq_of (a : rk_arg) : result tuple :=
  match a with
  | RStr s => Ok (str_chars s)
  | RKey (Some k) => Ok k
  | RKey None => Err TypeError
  end.

(** A call of [self._remove_by_key] with positional arguments [pos], bound
    against the signature of [_remove_by_key], which takes one argument besides [self]. *)
Definition call_remove_by_key (pos : list rk_arg) : M registry removed :=
  match pos with
  | [a] => key ← lift (seq_of a); _remove_by_key key
  | _ => raise TypeError
  end.

(** [def remove(self, component, identifier)] *)
Definition remove (component identifier : string) : M registry removed :=
  d ← get;
  key ← lift (call_find d [AStr component; AStr identifier] (Some (ABool true)));
  match key with
  | Some (_ :: _) => call_remove_by_key [RStr component; RKey key]
  | _ => raise (ValueError (VersionNotFound identifier component))
  end.

(** [[i for i, k in zip(identifiers, keys) if k is None]] *)
Definition missing_versions (identifiers : list string)
    (keys : list (option tuple)) : list string :=
  omap (λ ik : string * option tuple,
          match ik.2 with None => Some ik.1 | Some _ => None end)
       (zip identifiers keys).

(** [def difference_update(self, component, identifiers)] *)
Definition difference_update (component : string) (identifiers : list string)
    : M registry (list removed) :=
  d ← get;
  keys ← lift (mapM (λ i, call_find d [AStr component; AStr i] (Some (ABool true)))
                    identifiers);
  if existsb (λ k : option tuple, bool_decide (k = None)) keys
  then raise (ValueError (VersionsNotFound (missing_versions identifiers keys)
                                           component))
  else mapM (λ k, call_remove_by_key [RStr component; RKey k]) keys.

(** *** Iteration and serialization *)

Definition is_digit (c : ascii) : bool :=
  let n := nat_of_ascii c in ((48 <=? n)%nat && (n <=? 57)%nat).

(** [re.match(r'v?\d', s)]: an optional [v], then a digit. *)
Definition release_like (s : string) : bool :=
  match s with
  | EmptyString => false
  | String c rest =>
      if Ascii.eqb c "v"%char
      then match rest with String c' _ => is_digit c' | EmptyString => false end
      else is_digit c
  end.

Section Ordering.

(** The order of [LooseVersion] (package [verspec]) on version strings. *)
Variable loose_compare : string → string → comparison.

(** The local function [key] of [__iter__]. *)
Definition key (info : bucket) : result (nat * string) :=
  v ← dict_getattr (A:=string) info "version";
  Ok (if release_like v then 0 else 1, v).

(** [<] on the tuples that [key] returns. *)
Definition key_lt (a b : nat * string) : bool :=
  match Nat.compare a.1 b.1 with
  | Lt => true
  | Gt => false
  | Eq => match loose_compare a.2 b.2 with Lt => true | _ => false end
  end.

Fixpoint insert_desc {A} (x : (nat * string) * A)
    (l : list ((nat * string) * A)) : list ((nat * string) * A) :=
  match l with
  | [] => [x]
  | y :: l' => if key_lt x.1 y.1 then y :: insert_desc x l' else x :: l
  end.

(** [sorted(..., reverse=True, key=key)] on items already paired with
    their keys: descending, items with equal keys in their given order. *)
Definition sorted_reverse {A} (l : list ((nat * string) * A)) : list A :=
  (foldr insert_desc [] l).*2.

(** [def __iter__(self)]: [sorted] computes the key of every value of
    [self._data] before it compares any. *)
Definition __iter__ (self : registry) : result (list bucket) :=
  keyed ← mapM (λ info, k ← key info; Ok (k, info)) (map_to_list self).*2;
  Ok (sorted_reverse keyed).

(** [def to_json(self)]: [[i.to_json() for i in iter(self)]] *)
Definition to_json (self : registry) : result pyval :=
  l ← __iter__ self;
  js ← mapM (λ i, dict_getattr (A:=pyval) i "to_json") l;
  Ok (PList js).

Definition dumps (self : registry) : result json_text :=
  j ← to_json self;
  Ok (json_dumps j).

End Ordering.

(** [data.items()] *)
Definition items (data : pyval) : result (list (string * pyval)) :=
  match data with
  | PDict d => Ok d
  | _ => Err AttributeError
  end.

(** The body of [from_json], run on the fresh [result = cls()]. *)
Definition from_json_body (its : list (string * pyval)) : M registry unit :=
  for_each its (λ cv,
    let component := cv.1 in
    let versions := cv.2 in
    ensure_component component;;
    vs ← lift (py_iter versions);
    for_each vs (λ version_data,
      ver ← lift (VersionInfo.from_json version_data);
      let version_str := VersionInfo.version ver in
      d ← get;
      lift (_ensure_unique_aliases d component version_str
              (elements (VersionInfo.aliases ver)) false);;
      setitem_entry component version_str ver)).

(** [def from_json(cls, data)] *)
Definition from_json (data : pyval) : result registry :=
  its ← items data;
  match from_json_body its ∅ with
  | (Ok _, r) => Ok r
  | (Err e, _) => Err e
  end.

Definition loads (data : json_text) : result registry :=
  from_json (json_loads data).

(** [def __len__(self)]: [len(self._data)] *)
Definition __len__ (self : registry) : nat := size self.

(** [def __getitem__(self, k)]: [self._data[str(k)]] *)
Definition __getitem__ (self : registry) (k : string) : result bucket :=
  match self !! k with
  | Some b => Ok b
  | None => Err (KeyError k)
  end.

End Versions.

(** ** The registry invariant and the inputs used below *)

(** Within one bucket no alias is an identifier, and no alias belongs to two
    entries. *)
Definition names_disjoint (b : gmap string VersionInfo.t) : Prop :=
  (∀ k e a, b !! k = Some e → a ∈ VersionInfo.aliases e → b !! a = None)
  ∧ (∀ k1 k2 e1 e2 a,
       b !! k1 = Some e1 → b !! k2 = Some e2 →
       a ∈ VersionInfo.aliases e1 → a ∈ VersionInfo.aliases e2 → k1 = k2).

Definition invariant (d : gmap string (gmap string VersionInfo.t)) : Prop :=
  ∀ c b, d !! c = Some b → names_disjoint b.

(** [VersionInfo(v, aliases=al)] as the constructor leaves it. *)
Definition entry (v : string) (al : list string) : VersionInfo.t :=
  VersionInfo.mk v v (list_to_set al) PNone.

Definition with_title (x : string) (e : VersionInfo.t) : VersionInfo.t :=
  VersionInfo.mk (VersionInfo.version e) x (VersionInfo.aliases e)
                 (VersionInfo.properties e).

Definition with_properties (p : pyval) (e : VersionInfo.t) : VersionInfo.t :=
  VersionInfo.mk (VersionInfo.version e) (VersionInfo.title e)
                 (VersionInfo.aliases e) p.

(** One component [docs] holding the version [1.0]. *)
Definition docs_1_0 : gmap string (gmap string VersionInfo.t) :=
  {[ "docs" := {[ "1.0" := entry "1.0" [] ]} ]}.

(** The component [1.0] holding the version [1.0] with the alias [latest]. *)
Definition latest_on_1_0 : gmap string (gmap string VersionInfo.t) :=
  {[ "1.0" := {[ "1.0" := entry "1.0" ["latest"] ]} ]}.

(** [1.0] with the alias [latest], and a version named [latest] beside it. *)
Definition latest_twice : gmap string (gmap string VersionInfo.t) :=
  {[ "1.0" := {[ "1.0" := entry "1.0" ["latest"];
                 "latest" := entry "latest" [] ]} ]}.

(** The component [docs] after [2.0], [1.0] and [dev] were added. *)
Definition docs_three : gmap string (gmap string VersionInfo.t) :=
  {[ "docs" := {[ "2.0" := entry "2.0" [];
                  "1.0" := entry "1.0" [];
                  "dev" := entry "dev" [] ]} ]}.

Definition add_three : M (gmap string (gmap string VersionInfo.t)) VersionInfo.t :=
  Versions.add "docs" "2.0" None [] false;;
  Versions.add "docs" "1.0" None [] false;;
  Versions.add "docs" "dev" None [] false.

(** [add('1.0', '1.0', aliases=['latest'])], then [add('1.0', 'latest')]. *)
Definition add_alias_then_version
    : M (gmap string (gmap string VersionInfo.t)) VersionInfo.t :=
  Versions.add "1.0" "1.0" None ["latest"] false;;
  Versions.add "1.0" "latest" None [] false.

(** [loads(dumps(registry))] *)
Definition loads_dumps (loose_compare : string → string → comparison)
    (d : gmap string (gmap string VersionInfo.t))
    : result (gmap string (gmap string VersionInfo.t)) :=
  Versions.dumps loose_compare d ≫= Versions.loads.

(** Every entry is stored under its own version string and satisfies the
    invariant of its class. *)
Definition well_keyed (d : gmap string (gmap string VersionInfo.t)) : Prop :=
  ∀ c b k e, d !! c = Some b → b !! k = Some e →
             VersionInfo.version e = k ∧ VersionInfo.wf e.

(** The entry stored under [k] in the component [c], if there is one. *)
Definition entry_at (d : gmap string (gmap string VersionInfo.t))
    (c k : string) : option VersionInfo.t :=
  d !! c ≫= λ b, b !! k.

(** The registry once [add] or [from_json] has made sure that the component
    [c] has a bucket. *)
Definition with_component (c : string)
    (d : gmap string (gmap string VersionInfo.t))
    : gmap string (gmap string VersionInfo.t) :=
  if decide (c ∈ dom d) then d else <[c := ∅]> d.

(** The bucket of [c], empty when [c] has none yet. *)
Definition bucket_of (d : gmap string (gmap string VersionInfo.t))
    (c : string) : gmap string VersionInfo.t :=
  default ∅ (d !! c).

(** An entry as [from_json] reads it back from what [to_json] wrote. *)
Definition loaded (e : VersionInfo.t) : VersionInfo.t :=
  if truthy (VersionInfo.properties e) then e else with_properties PNone e.

(** Running the code on a closed input. *)
Ltac by_evaluation := vm_compute; reflexivity.

(** * Properties of [VersionInfo] *)

Section VersionInfoFacts.
Import VersionInfo.

Lemma check_version_valid a k : invalid_name a = false → _check_version a k = Ok ().
Proof. unfold _check_version. by intros ->. Qed.

Lemma check_version_invalid a k :
  invalid_name a = true → _check_version a k = Err (ValueError (NotValid a k)).
Proof. unfold _check_version. by intros ->. Qed.

Lemma check_aliases_valid (al : list string) :
  (∀ a, a ∈ al → invalid_name a = false) →
  for_each_r al (λ i, _check_version i KAlias) = Ok ().
Proof.
  induction al as [|a al IH]; intros Hval; [done|].
  cbn. rewrite check_version_valid by (apply Hval; by left). cbn.
  apply IH. intros b Hb. apply Hval. by right.
Qed.

Lemma check_aliases_ok_inv (al : list string) :
  for_each_r al (λ i, _check_version i KAlias) = Ok () →
  ∀ a, a ∈ al → invalid_name a = false.
Proof.
  induction al as [|b al IH]; intros Hal a Ha; [by apply elem_of_nil in Ha|].
  cbn in Hal. destruct (invalid_name b) eqn:Hb.
  - by rewrite check_version_invalid in Hal.
  - rewrite check_version_valid in Hal by done.
    apply elem_of_cons in Ha as [->|Ha]; [done|]. by apply IH.
Qed.

Lemma check_aliases_total (al : list string) :
  for_each_r al (λ i, _check_version i KAlias) = Ok ()
  ∨ ∃ a, a ∈ al ∧ for_each_r al (λ i, _check_version i KAlias)
                   = Err (ValueError (NotValid a KAlias)).
Proof.
  induction al as [|b al IH]; [by left|].
  cbn. destruct (invalid_name b) eqn:Hb.
  - right. exists b. rewrite check_version_invalid by done. split; [by left|done].
  - rewrite check_version_valid by done. cbn.
    destruct IH as [IH|(a & Ha & IH)]; [by left|].
    right. exists a. split; [by right|done].
Qed.

Lemma as_strs_fmap (l : list string) : as_strs (PStr <$> l) = Ok l.
Proof. induction l as [|s l IH]; [done|]. cbn. by rewrite IH. Qed.

(** The constructor establishes [wf]. *)
Lemma init_wf v ti al pr e : __init__ v ti al pr = Ok e → wf e.
Proof.
  unfold __init__.
  destruct (invalid_name v) eqn:Hv;
    [by rewrite check_version_invalid|rewrite check_version_valid by done].
  cbn. destruct (check_aliases_total al) as [Hal|(a & _ & Hal)]; rewrite Hal; [|done].
  cbn. case_decide as Hin; [done|]. intros [= <-].
  split_and!; cbn; [done| |done].
  intros a Ha%elem_of_list_to_set. by eapply check_aliases_ok_inv.
Qed.

(** What a call of [update] does when every alias is valid: the title is
    assigned first, the duplicate check comes after. *)
Lemma update_valid_aliases (e : t) (ti : option string) (al : list string) :
  (∀ a, a ∈ al → invalid_name a = false) →
  update ti al e =
    if decide (version e ∈ al)
    then (Err (ValueError DuplicatedVersionAndAlias),
          {| version := version e; title := default (title e) ti;
             aliases := aliases e; properties := properties e |})
    else (Ok (list_to_set al ∖ aliases e),
          {| version := version e; title := default (title e) ti;
             aliases := aliases e ∪ list_to_set al;
             properties := properties e |}).
Proof.
  intros Hval. unfold update, mbind, M_bind, lift.
  rewrite check_aliases_valid by done.
  destruct e as [v t0 a0 p0].
  destruct ti as [x|]; cbn;
    (destruct (decide (v ∈ al)) as [Hin|Hin];
     [rewrite decide_True by (by apply elem_of_list_to_set)
     |rewrite decide_False by (by rewrite elem_of_list_to_set)]); done.
Qed.

(** [update] raises before it touches the entry when an alias is not
    valid. *)
Lemma update_invalid_alias (e : t) (ti : option string) (al : list string) a :
  for_each_r al (λ i, _check_version i KAlias) = Err (ValueError (NotValid a KAlias)) →
  update ti al e = (Err (ValueError (NotValid a KAlias)), e).
Proof. intros Hal. unfold update, mbind, M_bind, lift. by rewrite Hal. Qed.

Lemma update_wf e ti al r e' : wf e → update ti al e = (r, e') → wf e'.
Proof.
  intros (Hv & Hal & Hdup) Hup.
  destruct (check_aliases_total al) as [Hok|(a & _ & Herr)].
  - pose proof (check_aliases_ok_inv al Hok) as Hval.
    rewrite update_valid_aliases in Hup by done.
    case_decide; injection Hup as <- <-; (split_and!; cbn; [done| |]); try done.
    + intros a [?|?%elem_of_list_to_set]%elem_of_union; auto.
    + rewrite elem_of_union, elem_of_list_to_set. tauto.
  - rewrite (update_invalid_alias _ _ _ _ Herr) in Hup. by injection Hup as <- <-.
Qed.

End VersionInfoFacts.

(** C8: a call [e.update(title, aliases)] whose aliases are all valid and do
    not contain [str(e.version)] succeeds; the title becomes [title] when one
    is given and is kept otherwise; the alias set becomes the union of the
    old set with [aliases], so no alias is lost; the call returns the aliases
    that were not in the set before. *)
Theorem update_unions_aliases (e : VersionInfo.t) (ti : option string)
    (al : list string) :
  Forall (λ a, VersionInfo.invalid_name a = false) al →
  VersionInfo.version e ∉ al →
  ∃ e', VersionInfo.update ti al e
          = (Ok (list_to_set al ∖ VersionInfo.aliases e), e')
    ∧ VersionInfo.title e' = default (VersionInfo.title e) ti
    ∧ VersionInfo.aliases e' = VersionInfo.aliases e ∪ list_to_set al
    ∧ VersionInfo.aliases e ⊆ VersionInfo.aliases e'
    ∧ VersionInfo.version e' = VersionInfo.version e
    ∧ VersionInfo.properties e' = VersionInfo.properties e.
Proof.
  intros Hval Hdup. rewrite Forall_forall in Hval.
  rewrite update_valid_aliases by done.
  rewrite decide_False by done.
  eexists. split; [reflexivity|]. cbn.
  split_and!; try done. apply union_subseteq_l.
Qed.

Lemma update_unions_aliases_witness :
  ∃ e', VersionInfo.update (Some "1.0.1") ["greatest"; "latest"]
          (entry "1.0" ["latest"])
          = (Ok (list_to_set ["greatest"; "latest"]
                   ∖ VersionInfo.aliases (entry "1.0" ["latest"])), e')
    ∧ VersionInfo.title e'
      = default (VersionInfo.title (entry "1.0" ["latest"])) (Some "1.0.1")
    ∧ VersionInfo.aliases e'
      = VersionInfo.aliases (entry "1.0" ["latest"])
          ∪ list_to_set ["greatest"; "latest"]
    ∧ VersionInfo.aliases (entry "1.0" ["latest"]) ⊆ VersionInfo.aliases e'
    ∧ VersionInfo.version e' = VersionInfo.version (entry "1.0" ["latest"])
    ∧ VersionInfo.properties e'
      = VersionInfo.properties (entry "1.0" ["latest"]).
Proof.
  apply (update_unions_aliases (entry "1.0" ["latest"]) (Some "1.0.1")
           ["greatest"; "latest"]).
  - repeat constructor.
  - apply (bool_decide_unpack _). vm_compute. exact I.
Defined.

(** C9, at a failing input: [VersionInfo('1.0').update('1.0.1', ['1.0'])]
    raises the [ValueError] for a duplicated version and alias, and the
    entry it leaves behind already carries the new title [1.0.1]: the title
    is assigned before the duplicate check. *)
Theorem update_duplicate_overwrites_title :
  VersionInfo.__init__ "1.0" None [] PNone = Ok (entry "1.0" [])
  ∧ VersionInfo.update (Some "1.0.1") ["1.0"] (entry "1.0" [])
    = (Err (ValueError DuplicatedVersionAndAlias),
       with_title "1.0.1" (entry "1.0" []))
  ∧ with_title "1.0.1" (entry "1.0" []) ≠ entry "1.0" [].
Proof.
  split_and!.
  - by_evaluation.
  - by_evaluation.
  - intros H. apply (f_equal VersionInfo.title) in H. discriminate H.
Qed.

(** C10: [to_json] writes the key [properties] exactly when the properties
    are truthy; an entry with falsy properties serializes like the same
    entry with properties [None], and reading that JSON back gives the entry
    with properties [None]. *)
Theorem to_json_properties_key (e : VersionInfo.t) :
  has_key (VersionInfo.to_json e) "properties"
    = truthy (VersionInfo.properties e)
  ∧ (truthy (VersionInfo.properties e) = false →
       VersionInfo.to_json e = VersionInfo.to_json (with_properties PNone e)
       ∧ (VersionInfo.wf e →
            VersionInfo.from_json (VersionInfo.to_json e)
              = Ok (with_properties PNone e))).
Proof.
  unfold VersionInfo.to_json. split.
  - destruct (truthy (VersionInfo.properties e)); reflexivity.
  - intros ->. split; [reflexivity|].
    intros (Hv & Hal & Hdup). destruct e as [v ti al pr]. cbn in *.
    unfold VersionInfo.from_json. cbn. rewrite as_strs_fmap. cbn.
    unfold VersionInfo.__init__.
    rewrite check_version_valid by done. cbn.
    rewrite check_aliases_valid
      by (intros a Ha%elem_of_elements; by apply Hal). cbn.
    rewrite list_to_set_elements_L.
    rewrite decide_False by done. reflexivity.
Qed.

Lemma to_json_properties_key_witness :
  has_key (VersionInfo.to_json (with_properties (PInt 0) (entry "1.0" ["latest"])))
          "properties"
    = truthy (PInt 0)
  ∧ VersionInfo.to_json (with_properties (PInt 0) (entry "1.0" ["latest"]))
    = VersionInfo.to_json (entry "1.0" ["latest"])
  ∧ VersionInfo.from_json
      (VersionInfo.to_json (with_properties (PInt 0) (entry "1.0" ["latest"])))
    = Ok (entry "1.0" ["latest"]).
Proof.
  destruct (to_json_properties_key
              (with_properties (PInt 0) (entry "1.0" ["latest"])))
    as [Hkey Hfalsy].
  destruct (Hfalsy eq_refl) as [Hsame Hback].
  split_and!; [exact Hkey|exact Hsame|].
  apply Hback. split_and!.
  - reflexivity.
  - intros a Ha. apply elem_of_list_to_set, list_elem_of_singleton in Ha.
    subst a. reflexivity.
  - apply (bool_decide_unpack _). vm_compute. exact I.
Defined.

(** * Properties of [Versions] *)

Section VersionsFacts.
Import Versions.

(** [find] answers for the component: a name that is a key of
    [self._data] is returned as a one-element tuple. *)
Lemma find_component (d : registry) (c : string) (strict : pyarg) b :
  d !! c = Some b → find d (AStr c) strict = Ok (Some [c]).
Proof.
  intros Hc. unfold find. cbn.
  rewrite decide_True; [done|]. apply elem_of_dom. by exists b.
Qed.

Lemma find_loop_cons i kv its : find_loop i (kv :: its) = Err AttributeError.
Proof. by destruct kv. Qed.

(** Any other name makes the loop of [find] read [aliases] off a bucket. *)
Lemma find_absent (d : registry) (c : string) (strict : pyarg) :
  d !! c = None → d ≠ ∅ → find d (AStr c) strict = Err AttributeError.
Proof.
  intros Hc Hne. unfold find. cbn.
  rewrite decide_False by (by apply not_elem_of_dom).
  destruct (map_to_list d) as [|kv its] eqn:Hl.
  - by apply map_to_list_empty_iff in Hl.
  - by rewrite find_loop_cons.
Qed.

Lemma find_empty (c : string) (strict : pyarg) :
  find ∅ (AStr c) strict
  = if truthy_arg strict then Err (KeyError c) else Ok None.
Proof. unfold find. cbn. rewrite map_to_list_empty. by destruct (truthy_arg strict). Qed.

(** [strict] given by position and by keyword. *)
Lemma call_find_strict_twice (d : registry) a b s :
  call_find d [a; b] (Some s) = Err TypeError.
Proof. reflexivity. Qed.

Lemma check_aliases_same (d : registry) c u al rem b :
  d !! c = Some b → check_aliases d c c u al rem = Ok rem.
Proof.
  intros Hc. induction al as [|a al IH]; [done|].
  cbn. rewrite (find_component d c (AStr a) b Hc). cbn.
  by rewrite decide_False by (intros Hne; by apply Hne).
Qed.

(** Inside an existing component the uniqueness check compares the
    component name with the version: it passes when there are no aliases or
    the two names agree, and otherwise rejects the first alias. *)
Lemma ensure_unique_in_component (d : registry) c v al u b :
  d !! c = Some b →
  _ensure_unique_aliases d c v al u
  = match al with
    | [] => Ok []
    | a :: _ => if decide (c = v) then Ok []
                else Err (ValueError (AliasIsVersion a c))
    end.
Proof.
  intros Hc. unfold _ensure_unique_aliases. cbn.
  rewrite (find_component d c (AStr v) b Hc). cbn.
  rewrite decide_False by done. cbn.
  destruct al as [|a al]; [done|].
  destruct (decide (c = v)) as [<-|Hne].
  - by apply check_aliases_same with b.
  - cbn. rewrite (find_component d c (AStr a) b Hc). cbn.
    by rewrite decide_True by done.
Qed.

(** [add] with an alias, for a version not named like its component. *)
Lemma add_alias_rejected (d : registry) c v ti a al u b :
  d !! c = Some b → c ≠ v →
  add c v ti (a :: al) u d = (Err (ValueError (AliasIsVersion a c)), d).
Proof.
  intros Hc Hne. unfold add, ensure_component, mbind, M_bind, get, lift.
  rewrite decide_True by (apply elem_of_dom; by exists b).
  unfold mret, M_ret.
  rewrite (ensure_unique_in_component d c v (a :: al) u b Hc).
  by rewrite decide_False by done.
Qed.

(** In a component that does not exist yet, the bucket made for it stays
    behind. *)
Lemma add_alias_rejected_new (d : registry) c v ti a al u :
  d !! c = None → c ≠ v →
  add c v ti (a :: al) u d
  = (Err (ValueError (AliasIsVersion a c)), <[c := ∅]> d).
Proof.
  intros Hc Hne. unfold add, ensure_component, mbind, M_bind, get, lift.
  rewrite decide_False by (by apply not_elem_of_dom).
  unfold put.
  rewrite (ensure_unique_in_component (<[c := ∅]> d) c v (a :: al) u ∅)
    by apply lookup_insert_eq.
  by rewrite decide_False by done.
Qed.

Lemma update_raises (d : registry) c i ti al u :
  update c i ti al u d = (Err TypeError, d).
Proof. reflexivity. Qed.

Lemma iter_empty cmp : __iter__ cmp ∅ = Ok [].
Proof. unfold __iter__. by rewrite map_to_list_empty. Qed.

Lemma iter_nonempty cmp (d : registry) : d ≠ ∅ → __iter__ cmp d = Err AttributeError.
Proof.
  intros Hne. unfold __iter__.
  destruct (map_to_list d) as [|kv its] eqn:Hl; [|done].
  by apply map_to_list_empty_iff in Hl.
Qed.

Lemma dumps_empty cmp : dumps cmp ∅ = Ok (json_dumps (PList [])).
Proof. unfold dumps, to_json. by rewrite iter_empty. Qed.

Lemma dumps_nonempty cmp (d : registry) : d ≠ ∅ → dumps cmp d = Err AttributeError.
Proof. intros Hne. unfold dumps, to_json. by rewrite iter_nonempty. Qed.

(** [from_json] does read the mapping of the persisted format. *)
Lemma from_json_docs :
  from_json (PDict [("docs", PList [VersionInfo.to_json (entry "1.0" [])])])
  = Ok docs_1_0.
Proof. by_evaluation. Qed.

End VersionsFacts.

(** C1, at a failing input: on an empty registry,
    [add('1.0', '1.0', aliases=['latest'])] followed by [add('1.0', 'latest')]
    succeeds and leaves the component [1.0] with [latest] both as an alias of
    the version [1.0] and as a version of its own, so the registry invariant
    does not hold after these two calls. *)
Theorem add_breaks_disjointness :
  add_alias_then_version ∅ = (Ok (entry "latest" []), latest_twice)
  ∧ ¬ invariant latest_twice.
Proof.
  split; [by_evaluation|].
  intros Hinv.
  destruct (Hinv "1.0" {[ "1.0" := entry "1.0" ["latest"];
                          "latest" := entry "latest" [] ]}) as [Hids _];
    [by_evaluation|].
  specialize (Hids "1.0" (entry "1.0" ["latest"]) "latest").
  assert (Some (entry "latest" []) = None) as Habs; [|discriminate Habs].
  rewrite <- Hids; [by_evaluation|by_evaluation|].
  apply (bool_decide_unpack _). vm_compute. exact I.
Qed.

(** C2, for every registry: [loads(dumps(registry))] raises
    [AttributeError].  A registry with a component makes [dumps] raise while
    it sorts the buckets; the empty registry is written as the list [[]],
    which [from_json] cannot read as a mapping. *)
Theorem loads_dumps_raises (loose_compare : string → string → comparison)
    (d : gmap string (gmap string VersionInfo.t)) :
  loads_dumps loose_compare d = Err AttributeError.
Proof.
  unfold loads_dumps. destruct (decide (d = ∅)) as [->|Hne].
  - by rewrite dumps_empty.
  - by rewrite dumps_nonempty.
Qed.

(** C3, at a failing input: the component [1.0] holds the version [1.0]
    with the alias [latest] (built by [add]); adding [2.0] with the alias
    [latest] raises [ValueError] with and without [update_aliases], and the
    registry stays as it was: the alias is not moved. *)
Theorem add_reassign_rejected :
  Versions.add "1.0" "1.0" None ["latest"] false ∅
    = (Ok (entry "1.0" ["latest"]), latest_on_1_0)
  ∧ Versions.add "1.0" "2.0" None ["latest"] true latest_on_1_0
    = (Err (ValueError (AliasIsVersion "latest" "1.0")), latest_on_1_0)
  ∧ Versions.add "1.0" "2.0" None ["latest"] false latest_on_1_0
    = (Err (ValueError (AliasIsVersion "latest" "1.0")), latest_on_1_0).
Proof.
  split_and!.
  - by_evaluation.
  - by apply add_alias_rejected with {[ "1.0" := entry "1.0" ["latest"] ]}.
  - by apply add_alias_rejected with {[ "1.0" := entry "1.0" ["latest"] ]}.
Qed.

(** C4, for every registry and every non-empty list of identifiers:
    [difference_update] raises [TypeError] at the first identifier, because
    [find] is given [strict] twice; the registry is unchanged, and no error
    naming the unresolved identifiers is raised. *)
Theorem difference_update_raises_type_error
    (d : gmap string (gmap string VersionInfo.t)) (c i : string)
    (rest : list string) :
  Versions.difference_update c (i :: rest) d = (Err TypeError, d).
Proof. reflexivity. Qed.

(** C5, at failing inputs: [find('docs', '1.0')] on a registry whose
    component [docs] holds the version [1.0] returns [('docs',)]; looking up
    the alias [latest] in the component [1.0] returns [('1.0',)]; an
    identifier that names nothing, [2.0], is answered with [('docs',)] too;
    and the call with [strict=True] raises [TypeError]. *)
Theorem find_returns_component :
  Versions.call_find docs_1_0 [Versions.AStr "docs"; Versions.AStr "1.0"] None
    = Ok (Some ["docs"])
  ∧ Versions.call_find latest_on_1_0
      [Versions.AStr "1.0"; Versions.AStr "latest"] None
    = Ok (Some ["1.0"])
  ∧ Versions.call_find docs_1_0 [Versions.AStr "docs"; Versions.AStr "2.0"] None
    = Ok (Some ["docs"])
  ∧ Versions.call_find docs_1_0 [Versions.AStr "docs"; Versions.AStr "2.0"]
      (Some (Versions.ABool true))
    = Err TypeError.
Proof. split_and!; by_evaluation. Qed.

(** C6, for every registry, component and identifier: [remove] raises
    [TypeError], because [find] is given [strict] twice, and the registry is
    unchanged: nothing is deleted and nothing is returned. *)
Theorem remove_raises_type_error
    (d : gmap string (gmap string VersionInfo.t)) (c i : string) :
  Versions.remove c i d = (Err TypeError, d).
Proof. reflexivity. Qed.

(** C7, at a failing input: after [2.0], [1.0] and [dev] were added to the
    component [docs], iterating the registry raises [AttributeError]: the key
    function reads [version] off the bucket of [docs]. *)
Theorem iteration_raises (loose_compare : string → string → comparison) :
  add_three ∅ = (Ok (entry "dev" []), docs_three)
  ∧ Versions.__iter__ loose_compare docs_three = Err AttributeError.
Proof.
  split; [by_evaluation|].
  apply iter_nonempty. intros Hd.
  apply (f_equal (λ m : gmap string (gmap string VersionInfo.t), m !! "docs")) in Hd.
  vm_compute in Hd. discriminate Hd.
Qed.

(** * Further properties of [VersionInfo] *)

Section VersionInfoMore.
Import VersionInfo.

Lemma check_aliases_app pre a post :
  Forall (λ x, invalid_name x = false) pre → invalid_name a = true →
  for_each_r (pre ++ a :: post) (λ i, _check_version i KAlias)
  = Err (ValueError (NotValid a KAlias)).
Proof.
  intros Hpre Ha. induction Hpre as [|x pre Hx _ IH]; cbn.
  - by rewrite check_version_invalid.
  - rewrite check_version_valid by done. cbn. exact IH.
Qed.

Lemma check_aliases_Forall al :
  for_each_r al (λ i, _check_version i KAlias) = Ok ()
  ↔ Forall (λ x, invalid_name x = false) al.
Proof.
  rewrite Forall_forall. split.
  - apply check_aliases_ok_inv.
  - apply check_aliases_valid.
Qed.

End VersionInfoMore.

Lemma init_ok_iff (v : string) (ti : option string) (al : list string)
    (pr : pyval) (e : VersionInfo.t) :
  (VersionInfo.__init__ v ti al pr = Ok e)
  ↔ VersionInfo.invalid_name v = false
    ∧ Forall (λ a, VersionInfo.invalid_name a = false) al
    ∧ (v ∉ al)
    ∧ e = VersionInfo.mk v (default v ti) (list_to_set al) pr.
Proof.
  unfold VersionInfo.__init__. split.
  - destruct (VersionInfo.invalid_name v) eqn:Hv;
      [by rewrite check_version_invalid|rewrite check_version_valid by done].
    cbn. destruct (check_aliases_total al) as [Hal|(a & _ & Hal)];
      rewrite Hal; [|done].
    cbn. case_decide as Hin; [done|]. intros [= <-].
    split_and!; [done|by apply check_aliases_Forall| |by destruct ti].
    by rewrite elem_of_list_to_set in Hin.
  - intros (Hv & Hal & Hin & ->).
    rewrite check_version_valid by done. cbn.
    apply check_aliases_Forall in Hal. rewrite Hal. cbn.
    rewrite decide_False by (by rewrite elem_of_list_to_set).
    by destruct ti.
Qed.

(** X1: The constructor succeeds exactly when the version and every alias pass
    [_check_version] and the version is not among the aliases; the entry it
    builds has the given version, the title (the version when none is
    given), the aliases as a set and the properties. *)
Theorem init_succeeds_iff (v : string) (ti : option string) (al : list string)
    (pr : pyval) (e : VersionInfo.t) :
  (VersionInfo.__init__ v ti al pr = Ok e)
  ↔ VersionInfo.invalid_name v = false
    ∧ Forall (λ a, VersionInfo.invalid_name a = false) al
    ∧ (v ∉ al)
    ∧ e = VersionInfo.mk v (default v ti) (list_to_set al) pr.
Proof. apply init_ok_iff. Qed.

Lemma update_version (e e' : VersionInfo.t) ti al r :
  VersionInfo.update ti al e = (r, e') →
  VersionInfo.version e' = VersionInfo.version e.
Proof.
  intros Hup.
  destruct (check_aliases_total al) as [Hok|(a & _ & Herr)].
  - rewrite update_valid_aliases in Hup by (by apply check_aliases_ok_inv).
    by case_decide; injection Hup as <- <-.
  - rewrite (update_invalid_alias _ _ _ _ Herr) in Hup.
    by injection Hup as <- <-.
Qed.

(** Reading back what [to_json] wrote: falsy properties come back as
    [None]. *)
Lemma from_json_to_json (e : VersionInfo.t) :
  VersionInfo.wf e →
  VersionInfo.from_json (VersionInfo.to_json e) = Ok (loaded e).
Proof.
  intros (Hv & Hal & Hdup). destruct e as [v ti al pr]. cbn in *.
  unfold VersionInfo.from_json, VersionInfo.to_json, loaded. cbn.
  assert (∀ p, VersionInfo.__init__ v (Some ti) (elements al) p
               = Ok (VersionInfo.mk v ti al p)) as Hinit.
  { intros p. apply init_ok_iff. split_and!; [done| | |].
    - apply Forall_forall. intros a Ha%elem_of_elements. by apply Hal.
    - by rewrite elem_of_elements.
    - by rewrite list_to_set_elements_L. }
  destruct (truthy pr); cbn; rewrite as_strs_fmap; cbn; apply Hinit.
Qed.



(** X2: In every outcome of [update], also when it raises, the entry keeps the
    invariant of its class, its version and its properties, and loses no
    alias. *)
Theorem update_keeps_entry (e : VersionInfo.t) (ti : option string)
    (al : list string) (r : result (gset string)) (e' : VersionInfo.t) :
  VersionInfo.wf e →
  VersionInfo.update ti al e = (r, e') →
  VersionInfo.wf e'
  ∧ VersionInfo.version e' = VersionInfo.version e
  ∧ VersionInfo.properties e' = VersionInfo.properties e
  ∧ VersionInfo.aliases e ⊆ VersionInfo.aliases e'.
Proof.
  intros Hwf Hup. split; [by eapply update_wf|].
  destruct (check_aliases_total al) as [Hok|(a & _ & Herr)].
  - rewrite update_valid_aliases in Hup by (by apply check_aliases_ok_inv).
    case_decide; injection Hup as <- <-; cbn; split_and!; try done.
    apply union_subseteq_l.
  - rewrite (update_invalid_alias _ _ _ _ Herr) in Hup.
    by injection Hup as <- <-.
Qed.

Lemma update_keeps_entry_witness :
  VersionInfo.wf (with_title "1.0.1" (entry "1.0" ["latest"]))
  ∧ VersionInfo.version (with_title "1.0.1" (entry "1.0" ["latest"]))
    = VersionInfo.version (entry "1.0" ["latest"])
  ∧ VersionInfo.properties (with_title "1.0.1" (entry "1.0" ["latest"]))
    = VersionInfo.properties (entry "1.0" ["latest"])
  ∧ VersionInfo.aliases (entry "1.0" ["latest"])
    ⊆ VersionInfo.aliases (with_title "1.0.1" (entry "1.0" ["latest"])).
Proof.
  apply (update_keeps_entry (entry "1.0" ["latest"]) (Some "1.0.1") ["1.0"]
           (Err (ValueError DuplicatedVersionAndAlias))).
  - split_and!.
    + reflexivity.
    + intros a Ha. apply elem_of_list_to_set, list_elem_of_singleton in Ha.
      subst a. reflexivity.
    + apply (bool_decide_unpack _). vm_compute. exact I.
  - by_evaluation.
Defined.

(** X3: Writing an entry with [dumps] and reading it back with [loads] gives the
    same entry when its properties are truthy or [None]. *)
Theorem entry_loads_dumps (e : VersionInfo.t) :
  VersionInfo.wf e →
  truthy (VersionInfo.properties e) = true ∨ VersionInfo.properties e = PNone →
  VersionInfo.loads (VersionInfo.dumps e) = Ok e.
Proof.
  intros Hwf Hpr. unfold VersionInfo.loads, VersionInfo.dumps. cbn.
  rewrite from_json_to_json by done. unfold loaded.
  destruct Hpr as [->|Hpr]; [done|]. rewrite Hpr. cbn.
  destruct e. cbn in Hpr. by subst.
Qed.

Lemma entry_loads_dumps_witness :
  VersionInfo.loads
    (VersionInfo.dumps
       (with_properties (PDict [("eol", PBool true)]) (entry "1.0" ["latest"])))
  = Ok (with_properties (PDict [("eol", PBool true)]) (entry "1.0" ["latest"])).
Proof.
  apply (entry_loads_dumps
           (with_properties (PDict [("eol", PBool true)]) (entry "1.0" ["latest"]))).
  - split_and!.
    + reflexivity.
    + intros a Ha. apply elem_of_list_to_set, list_elem_of_singleton in Ha.
      subst a. reflexivity.
    + apply (bool_decide_unpack _). vm_compute. exact I.
  - left. reflexivity.
Defined.

Lemma update_again_noop (e : VersionInfo.t) (ti : option string)
    (al : list string) (added : gset string) (e' : VersionInfo.t) :
  VersionInfo.update ti al e = (Ok added, e') →
  VersionInfo.update ti al e' = (Ok ∅, e').
Proof.
  intros Hup.
  destruct (check_aliases_total al) as [Hok|(a & _ & Herr)].
  - pose proof (check_aliases_ok_inv al Hok) as Hval.
    rewrite update_valid_aliases in Hup by done.
    rewrite update_valid_aliases by done.
    case_decide as Hin; [done|]. injection Hup as <- <-. cbn.
    rewrite decide_False by done. f_equal.
    + f_equal. apply set_eq. intros x.
      rewrite elem_of_difference, elem_of_union, elem_of_empty. tauto.
    + f_equal; [by destruct ti|].
      apply set_eq. intros x. rewrite !elem_of_union. tauto.
  - by rewrite (update_invalid_alias _ _ _ _ Herr) in Hup.
Qed.

(** X4: A call of [update] that succeeded can be repeated: the second call adds
    no alias and leaves the entry as the first call left it. *)
Theorem update_twice (e : VersionInfo.t) (ti : option string)
    (al : list string) (added : gset string) (e' : VersionInfo.t) :
  VersionInfo.update ti al e = (Ok added, e') →
  VersionInfo.update ti al e' = (Ok ∅, e').
Proof. apply update_again_noop. Qed.

Lemma update_twice_witness :
  VersionInfo.update (Some "1.0.1") ["greatest"]
    (VersionInfo.mk "1.0" "1.0.1" (list_to_set ["latest"] ∪ list_to_set ["greatest"]) PNone)
  = (Ok ∅,
     VersionInfo.mk "1.0" "1.0.1" (list_to_set ["latest"] ∪ list_to_set ["greatest"]) PNone).
Proof.
  apply (update_twice (entry "1.0" ["latest"]) (Some "1.0.1") ["greatest"]
           (list_to_set ["greatest"] ∖ list_to_set ["latest"])).
  by_evaluation.
Defined.

(** X5: When an alias does not pass [_check_version], [update] raises for the
    first such alias and leaves the entry untouched, title included. *)
Theorem update_invalid_alias_first (e : VersionInfo.t) (ti : option string)
    (pre : list string) (a : string) (post : list string) :
  Forall (λ x, VersionInfo.invalid_name x = false) pre →
  VersionInfo.invalid_name a = true →
  VersionInfo.update ti (pre ++ a :: post) e
  = (Err (ValueError (NotValid a KAlias)), e).
Proof.
  intros Hpre Ha. apply update_invalid_alias. by apply check_aliases_app.
Qed.

Lemma update_invalid_alias_first_witness :
  VersionInfo.update (Some "1.0.1") (["latest"] ++ "a/b" :: [".."])
    (entry "1.0" [])
  = (Err (ValueError (NotValid "a/b" KAlias)), entry "1.0" []).
Proof.
  apply (update_invalid_alias_first (entry "1.0" []) (Some "1.0.1")
           ["latest"] "a/b" [".."]).
  - repeat constructor.
  - reflexivity.
Defined.

(** * Further properties of [Versions] *)

Ltac bind_step := unfold mbind at 1; unfold M_bind at 1.

Section VersionsMore.
Import Versions.

Lemma with_component_lookup c (d : registry) :
  with_component c d !! c = Some (bucket_of d c).
Proof.
  unfold with_component, bucket_of. case_decide as Hc.
  - apply elem_of_dom in Hc as [b Hb]. by rewrite Hb.
  - rewrite lookup_insert_eq. apply not_elem_of_dom in Hc. by rewrite Hc.
Qed.

Lemma with_component_lookup_ne c c' (d : registry) :
  c ≠ c' → with_component c d !! c' = d !! c'.
Proof.
  intros Hne. unfold with_component. case_decide; [done|].
  by rewrite lookup_insert_ne.
Qed.

Lemma insert_with_component c b (d : registry) :
  <[c := b]> (with_component c d) = <[c := b]> d.
Proof.
  unfold with_component. case_decide; [done|]. apply insert_insert_eq.
Qed.

Lemma ensure_component_run c (d : registry) :
  ensure_component c d = (Ok (), with_component c d).
Proof.
  unfold ensure_component, with_component, mbind, M_bind, get. cbn.
  by case_decide.
Qed.

Lemma getitem_data_run c (d : registry) b :
  d !! c = Some b → getitem_data c d = (Ok b, d).
Proof. intros Hc. unfold getitem_data, mbind, M_bind, get. by rewrite Hc. Qed.

Lemma getitem_entry_run c k (d : registry) b e :
  d !! c = Some b → b !! k = Some e → getitem_entry c k d = (Ok e, d).
Proof.
  intros Hc Hk. unfold getitem_entry, mbind, M_bind.
  rewrite (getitem_data_run c d b Hc). by rewrite Hk.
Qed.

Lemma setitem_entry_run c k e (d : registry) b :
  d !! c = Some b → setitem_entry c k e d = (Ok (), <[c := <[k := e]> b]> d).
Proof.
  intros Hc. unfold setitem_entry, mbind, M_bind.
  by rewrite (getitem_data_run c d b Hc).
Qed.

Lemma at_entry_run {A} c k (m : M VersionInfo.t A) (d : registry) b e :
  d !! c = Some b → b !! k = Some e →
  at_entry c k m d = ((m e).1, <[c := <[k := (m e).2]> b]> d).
Proof.
  intros Hc Hk. unfold at_entry. rewrite Hc, Hk. by destruct (m e).
Qed.

(** What [add] does once the uniqueness check has let the call through. *)
Lemma add_checked (d : registry) c v ti al u :
  al = [] ∨ c = v →
  add c v ti al u d =
    match bucket_of d c !! v with
    | Some e =>
        match VersionInfo.update ti al e with
        | (Ok _, e') => (Ok e', <[c := <[v := e']> (bucket_of d c)]> d)
        | (Err x, e') => (Err x, <[c := <[v := e']> (bucket_of d c)]> d)
        end
    | None =>
        match VersionInfo.__init__ v ti al PNone with
        | Ok e => (Ok e, <[c := <[v := e]> (bucket_of d c)]> d)
        | Err x => (Err x, with_component c d)
        end
    end.
Proof.
  intros Hpass. unfold add.
  unfold mbind at 1. unfold M_bind at 1. rewrite ensure_component_run.
  unfold mbind at 1. unfold M_bind at 1. unfold get at 1.
  unfold mbind at 1. unfold M_bind at 1. unfold lift at 1.
  rewrite (ensure_unique_in_component _ c v al u _ (with_component_lookup c d)).
  assert (match al with
          | [] => Ok []
          | a :: _ => if decide (c = v) then Ok []
                      else Err (ValueError (AliasIsVersion a c))
          end = Ok (A:=list tuple) []) as ->.
  { destruct al; [done|]. destruct Hpass as [?| ->]; [done|]. by rewrite decide_True. }
  set (b := bucket_of d c).
  pose proof (with_component_lookup c d) as Hb. fold b in Hb.
  bind_step. rewrite (getitem_data_run _ _ _ Hb).
  destruct (b !! v) as [e|] eqn:Hv.
  - rewrite decide_True by (apply elem_of_dom; by exists e).
    do 2 bind_step. rewrite (at_entry_run c v _ _ b e Hb Hv).
    rewrite insert_with_component.
    destruct (VersionInfo.update ti al e) as [[added|x] e']; cbn; [|done].
    bind_step. cbn.
    by rewrite (getitem_entry_run c v _ (<[v := e']> b) e')
      by apply lookup_insert_eq.
  - rewrite decide_False by (by apply not_elem_of_dom).
    do 2 bind_step. unfold lift at 1.
    destruct (VersionInfo.__init__ v ti al PNone) as [e|x]; [|done].
    rewrite (setitem_entry_run c v e _ b Hb), insert_with_component.
    bind_step. cbn.
    by rewrite (getitem_entry_run c v _ (<[v := e]> b) e)
      by apply lookup_insert_eq.
Qed.

(** [add] with an alias, for a version not named like its component, in any
    registry. *)
Lemma add_rejected (d : registry) c v ti a al u :
  c ≠ v →
  add c v ti (a :: al) u d
  = (Err (ValueError (AliasIsVersion a c)), with_component c d).
Proof.
  intros Hne. unfold with_component. case_decide as Hc.
  - apply elem_of_dom in Hc as [b Hb]. by apply add_alias_rejected with b.
  - apply add_alias_rejected_new; [by apply not_elem_of_dom|done].
Qed.

Lemma check_aliases_empty c v u al rem :
  check_aliases ∅ c v u al rem = Ok rem
  ∨ ∃ x, check_aliases ∅ c v u al rem = Err x.
Proof.
  induction al as [|a al IH]; [by left|].
  cbn. rewrite find_empty. destruct (truthy_arg (AStr a)); cbn; [right; by eexists|].
  exact IH.
Qed.

(** A call of [VersionInfo.update] that returned. *)
Lemma update_success_inv (e0 e : VersionInfo.t) ti al added :
  VersionInfo.update ti al e0 = (Ok added, e) →
  Forall (λ a, VersionInfo.invalid_name a = false) al
  ∧ (VersionInfo.version e0 ∉ al)
  ∧ e = VersionInfo.mk (VersionInfo.version e0)
          (default (VersionInfo.title e0) ti)
          (VersionInfo.aliases e0 ∪ list_to_set al) (VersionInfo.properties e0)
  ∧ added = list_to_set al ∖ VersionInfo.aliases e0.
Proof.
  intros Hup.
  destruct (check_aliases_total al) as [Hok|(a & _ & Herr)].
  - pose proof (check_aliases_ok_inv al Hok) as Hval.
    rewrite update_valid_aliases in Hup by done.
    case_decide; [done|]. injection Hup as <- <-.
    split_and!; [by apply Forall_forall|done|done|done].
  - by rewrite (update_invalid_alias _ _ _ _ Herr) in Hup.
Qed.

(** A call of [add] that returned. *)
Lemma add_success (d d' : registry) c v ti al u e :
  add c v ti al u d = (Ok e, d') →
  (al = [] ∨ c = v)
  ∧ d' = <[c := <[v := e]> (bucket_of d c)]> d
  ∧ match bucket_of d c !! v with
    | Some e0 => ∃ added, VersionInfo.update ti al e0 = (Ok added, e)
    | None => VersionInfo.__init__ v ti al PNone = Ok e
    end.
Proof.
  intros Hadd.
  assert (al = [] ∨ c = v) as Hpass.
  { destruct al as [|a al]; [by left|]. destruct (decide (c = v)); [by right|].
    by rewrite add_rejected in Hadd. }
  split; [done|]. rewrite add_checked in Hadd by done.
  destruct (bucket_of d c !! v) as [e0|].
  - destruct (VersionInfo.update ti al e0) as [[added|x] e1]; [|done].
    injection Hadd as <- <-. split; [done|]. by exists added.
  - destruct (VersionInfo.__init__ v ti al PNone) as [e1|x]; [|done].
    by injection Hadd as <- <-.
Qed.

(** The registry [add] leaves behind, in every outcome: the bucket of the
    component was made, and at most the slot of the version was written. *)
Lemma add_state (d : registry) c v ti al u :
  (add c v ti al u d).2 = with_component c d
  ∨ ∃ e', (add c v ti al u d).2 = <[c := <[v := e']> (bucket_of d c)]> d
          ∧ match bucket_of d c !! v with
            | Some e0 => ∃ r, VersionInfo.update ti al e0 = (r, e')
            | None => VersionInfo.__init__ v ti al PNone = Ok e'
            end.
Proof.
  assert (al = [] ∨ c = v ∨ ∃ a al', al = a :: al' ∧ c ≠ v) as [Hp|[Hp|Hr]].
  { destruct al as [|a al]; [by left|]. destruct (decide (c = v)); [right; by left|].
    right; right. by exists a, al. }
  3: { destruct Hr as (a & al' & -> & Hne). left. by rewrite add_rejected. }
  all: rewrite add_checked by tauto.
  all: destruct (bucket_of d c !! v) as [e0|].
  1,3: destruct (VersionInfo.update ti al e0) as [[added|x] e1] eqn:Hup;
         right; exists e1; cbn; (split; [done|by eexists]).
  all: destruct (VersionInfo.__init__ v ti al PNone) as [e1|x];
         [right; by exists e1|by left].
Qed.

Lemma entry_at_with_component (d : registry) c c' k :
  entry_at (with_component c d) c' k = entry_at d c' k.
Proof.
  unfold entry_at, with_component. case_decide as Hc; [done|].
  destruct (decide (c = c')) as [<-|Hne].
  - rewrite lookup_insert_eq. apply not_elem_of_dom in Hc. by rewrite Hc.
  - by rewrite lookup_insert_ne.
Qed.

Lemma entry_at_insert_ne (d : registry) c v e c' k :
  (c', k) ≠ (c, v) →
  entry_at (<[c := <[v := e]> (bucket_of d c)]> d) c' k = entry_at d c' k.
Proof.
  intros Hne. unfold entry_at, bucket_of.
  destruct (decide (c = c')) as [<-|Hc].
  - rewrite lookup_insert_eq. cbn.
    rewrite lookup_insert_ne by congruence.
    by destruct (d !! c).
  - by rewrite lookup_insert_ne.
Qed.

Lemma entry_at_insert_eq (d : registry) c v e b :
  entry_at (<[c := <[v := e]> b]> d) c v = Some e.
Proof. unfold entry_at. rewrite lookup_insert_eq. cbn. apply lookup_insert_eq. Qed.

Lemma dom_with_component (d : registry) c :
  dom (with_component c d) = dom d ∪ {[c]}.
Proof.
  unfold with_component. case_decide as Hc.
  - apply set_eq. intros x. rewrite elem_of_union, elem_of_singleton.
    split; [by left|]. by intros [?| ->].
  - rewrite dom_insert_L. apply (comm_L (∪)).
Qed.

End VersionsMore.

(** X6: [find] looks its first argument up among the component names: a
    component name comes back as a one-element tuple; any other name gives
    [None] (or [KeyError] under a truthy [strict]) on an empty registry and
    raises [AttributeError] on a registry that has components. *)
Theorem find_by_component (d : gmap string (gmap string VersionInfo.t))
    (c : string) (strict : Versions.pyarg) :
  Versions.find d (Versions.AStr c) strict
  = if decide (c ∈ dom d) then Ok (Some [c])
    else if decide (d = ∅)
         then (if Versions.truthy_arg strict then Err (KeyError c) else Ok None)
         else Err AttributeError.
Proof.
  case_decide as Hc.
  - apply elem_of_dom in Hc as [b Hb]. by apply find_component with b.
  - apply not_elem_of_dom in Hc. case_decide as Hd.
    + subst d. apply find_empty.
    + by apply find_absent.
Qed.

(** X7: [_ensure_unique_aliases] never hands back an alias to take away from
    its owner: it returns the empty list or raises. *)
Theorem ensure_unique_returns_nothing
    (d : gmap string (gmap string VersionInfo.t)) (c v : string)
    (al : list string) (u : bool) :
  Versions._ensure_unique_aliases d c v al u = Ok []
  ∨ ∃ x, Versions._ensure_unique_aliases d c v al u = Err x.
Proof.
  destruct (d !! c) as [b|] eqn:Hc.
  - rewrite (ensure_unique_in_component d c v al u b Hc).
    destruct al as [|a al]; [by left|].
    case_decide; [by left|right; by eexists].
  - unfold Versions._ensure_unique_aliases. cbn.
    destruct (decide (d = ∅)) as [->|Hd].
    + rewrite find_empty.
      destruct (Versions.truthy_arg (Versions.AStr v)); cbn; [right; by eexists|].
      apply check_aliases_empty.
    + rewrite find_absent by done. right. by eexists.
Qed.

(** X8: [add] with at least one alias, for a version whose name differs from
    the component's, raises [ValueError] for the first alias; the registry is
    as before, except that a component that was missing now has an empty
    bucket. *)
Theorem add_alias_needs_component_name
    (d : gmap string (gmap string VersionInfo.t)) (c v : string)
    (ti : option string) (a : string) (al : list string) (u : bool) :
  c ≠ v →
  Versions.add c v ti (a :: al) u d
  = (Err (ValueError (AliasIsVersion a c)), with_component c d).
Proof. apply add_rejected. Qed.

Lemma add_alias_needs_component_name_witness :
  Versions.add "docs" "1.0" None ("latest" :: []) true ∅
  = (Err (ValueError (AliasIsVersion "latest" "docs")), with_component "docs" ∅).
Proof.
  apply (add_alias_needs_component_name ∅ "docs" "1.0" None "latest" [] true).
  discriminate.
Defined.

(** X9: [add] of a valid version that the component does not hold yet, without
    aliases, stores the entry the constructor builds: title defaulting to the
    version, no aliases, no properties. *)
Theorem add_new_version (d : gmap string (gmap string VersionInfo.t))
    (c v : string) (ti : option string) (u : bool) :
  VersionInfo.invalid_name v = false →
  bucket_of d c !! v = None →
  Versions.add c v ti [] u d
  = (Ok (VersionInfo.mk v (default v ti) ∅ PNone),
     <[c := <[v := VersionInfo.mk v (default v ti) ∅ PNone]> (bucket_of d c)]> d).
Proof.
  intros Hv Hnew. rewrite add_checked by (by left). rewrite Hnew.
  assert (VersionInfo.__init__ v ti [] PNone
          = Ok (VersionInfo.mk v (default v ti) ∅ PNone)) as ->; [|done].
  apply init_ok_iff. split_and!; [done|constructor|apply not_elem_of_nil|done].
Qed.

Lemma add_new_version_witness :
  Versions.add "docs" "2.0" (Some "2.0.0") [] false docs_1_0
  = (Ok (VersionInfo.mk "2.0" (default "2.0" (Some "2.0.0")) ∅ PNone),
     <["docs" := <["2.0" := VersionInfo.mk "2.0" (default "2.0" (Some "2.0.0")) ∅ PNone]>
                   (bucket_of docs_1_0 "docs")]> docs_1_0).
Proof.
  apply (add_new_version docs_1_0 "docs" "2.0" (Some "2.0.0") false).
  - reflexivity.
  - by_evaluation.
Defined.

(** X10: [add] of a version the component already holds, without aliases, only
    sets the title of the stored entry (and keeps it when no title is given);
    aliases and properties of the entry stay. *)
Theorem add_existing_retitles (d : gmap string (gmap string VersionInfo.t))
    (c v : string) (ti : option string) (u : bool) (e : VersionInfo.t) :
  entry_at d c v = Some e →
  Versions.add c v ti [] u d
  = (Ok (with_title (default (VersionInfo.title e) ti) e),
     <[c := <[v := with_title (default (VersionInfo.title e) ti) e]>
              (bucket_of d c)]> d).
Proof.
  unfold entry_at, bucket_of. intros He.
  destruct (d !! c) as [b|] eqn:Hc; [cbn in He|done].
  rewrite add_checked by (by left). unfold bucket_of. rewrite Hc. cbn. rewrite He.
  rewrite update_valid_aliases by (intros a Ha; by apply elem_of_nil in Ha).
  rewrite decide_False by apply not_elem_of_nil. cbn.
  replace (VersionInfo.aliases e ∪ ∅) with (VersionInfo.aliases e)
    by (by rewrite (right_id_L ∅ (∪))).
  done.
Qed.

Lemma add_existing_retitles_witness :
  Versions.add "1.0" "1.0" (Some "1.0.1") [] false latest_on_1_0
  = (Ok (with_title (default (VersionInfo.title (entry "1.0" ["latest"])) (Some "1.0.1"))
           (entry "1.0" ["latest"])),
     <["1.0" := <["1.0" := with_title
                            (default (VersionInfo.title (entry "1.0" ["latest"]))
                               (Some "1.0.1"))
                            (entry "1.0" ["latest"])]>
                  (bucket_of latest_on_1_0 "1.0")]> latest_on_1_0).
Proof.
  apply (add_existing_retitles latest_on_1_0 "1.0" "1.0" (Some "1.0.1") false
           (entry "1.0" ["latest"])).
  by_evaluation.
Defined.

(** X11: In every outcome, [add] leaves all entries other than the one of its
    component and version as they were. *)
Theorem add_touches_one_entry (d : gmap string (gmap string VersionInfo.t))
    (c v : string) (ti : option string) (al : list string) (u : bool)
    (c' k : string) :
  (c', k) ≠ (c, v) →
  entry_at (Versions.add c v ti al u d).2 c' k = entry_at d c' k.
Proof.
  intros Hne. destruct (add_state d c v ti al u) as [->|(e' & -> & _)].
  - apply entry_at_with_component.
  - by apply entry_at_insert_ne.
Qed.

Lemma add_touches_one_entry_witness :
  entry_at (Versions.add "1.0" "2.0" None ["latest"] true latest_on_1_0).2
           "1.0" "1.0"
  = entry_at latest_on_1_0 "1.0" "1.0".
Proof.
  apply (add_touches_one_entry latest_on_1_0 "1.0" "2.0" None ["latest"] true
           "1.0" "1.0").
  discriminate.
Defined.

(** X12: In every outcome, [add] leaves the registry with the components it had
    and the component it was called for; [len] grows by one exactly when
    that component is new, and [__getitem__] finds its bucket. *)
Theorem add_component_exists (d : gmap string (gmap string VersionInfo.t))
    (c v : string) (ti : option string) (al : list string) (u : bool) :
  dom (Versions.add c v ti al u d).2 = dom d ∪ {[c]}
  ∧ Versions.__len__ (Versions.add c v ti al u d).2
    = (if decide (c ∈ dom d) then Versions.__len__ d
       else S (Versions.__len__ d))
  ∧ ∃ b, Versions.__getitem__ (Versions.add c v ti al u d).2 c = Ok b.
Proof.
  assert (dom (Versions.add c v ti al u d).2 = dom d ∪ {[c]}) as Hdom.
  { destruct (add_state d c v ti al u) as [->|(e' & -> & _)].
    - apply dom_with_component.
    - rewrite dom_insert_L. apply (comm_L (∪)). }
  split; [done|]. split.
  - unfold Versions.__len__. rewrite <- !size_dom, Hdom.
    case_decide as Hc.
    + f_equal. apply set_eq. intros x. rewrite elem_of_union, elem_of_singleton.
      split; [by intros [?| ->]|by left].
    + rewrite size_union by (apply disjoint_singleton_r; done).
      rewrite size_singleton. lia.
  - unfold Versions.__getitem__.
    destruct ((Versions.add c v ti al u d).2 !! c) as [b|] eqn:Hb; [by exists b|].
    apply not_elem_of_dom in Hb. rewrite Hdom in Hb.
    exfalso. apply Hb. apply elem_of_union_r. by apply elem_of_singleton.
Qed.

(** X13: When [add] returns, the entry it returns is the one stored under the
    component and version, it carries every requested alias, and the aliases
    were all valid; aliases are only let through when the version is named
    like its component. *)
Theorem add_returns_stored_entry
    (d d' : gmap string (gmap string VersionInfo.t))
    (c v : string) (ti : option string) (al : list string) (u : bool)
    (e : VersionInfo.t) :
  Versions.add c v ti al u d = (Ok e, d') →
  entry_at d' c v = Some e
  ∧ list_to_set al ⊆ VersionInfo.aliases e
  ∧ Forall (λ a, VersionInfo.invalid_name a = false) al
  ∧ (al = [] ∨ c = v).
Proof.
  intros (Hpass & -> & Hhow)%add_success.
  split; [apply entry_at_insert_eq|].
  destruct (bucket_of d c !! v) as [e0|].
  - destruct Hhow as (added & (Hval & _ & -> & _)%update_success_inv).
    split_and!; [apply union_subseteq_r|done|done].
  - apply init_ok_iff in Hhow as (_ & Hval & _ & ->).
    split_and!; done.
Qed.

Lemma add_returns_stored_entry_witness :
  entry_at latest_on_1_0 "1.0" "1.0" = Some (entry "1.0" ["latest"])
  ∧ list_to_set ["latest"] ⊆ VersionInfo.aliases (entry "1.0" ["latest"])
  ∧ Forall (λ a, VersionInfo.invalid_name a = false) ["latest"]
  ∧ (["latest"] = [] ∨ "1.0" = "1.0").
Proof.
  apply (add_returns_stored_entry ∅ latest_on_1_0 "1.0" "1.0" None ["latest"] false
           (entry "1.0" ["latest"])).
  by_evaluation.
Defined.

(** X14: A call of [add] that returned can be repeated: the second call returns
    the same entry and leaves the registry as the first call left it. *)
Theorem add_twice (d d' : gmap string (gmap string VersionInfo.t))
    (c v : string) (ti : option string) (al : list string) (u : bool)
    (e : VersionInfo.t) :
  Versions.add c v ti al u d = (Ok e, d') →
  Versions.add c v ti al u d' = (Ok e, d').
Proof.
  intros (Hpass & -> & Hhow)%add_success.
  rewrite add_checked by done.
  assert (bucket_of (<[c := <[v := e]> (bucket_of d c)]> d) c
          = <[v := e]> (bucket_of d c)) as ->.
  { unfold bucket_of at 1. by rewrite lookup_insert_eq. }
  rewrite lookup_insert_eq.
  assert (VersionInfo.update ti al e = (Ok ∅, e)) as ->.
  { destruct (bucket_of d c !! v) as [e0|].
    - destruct Hhow as (added & Hup). by apply update_again_noop with e0 added.
    - apply init_ok_iff in Hhow as (_ & Hval & Hin & ->).
      rewrite update_valid_aliases by (by apply Forall_forall).
      cbn. rewrite decide_False by done. f_equal.
      + f_equal. apply set_eq. intros x.
        rewrite elem_of_difference, elem_of_empty. tauto.
      + f_equal; [by destruct ti|apply (idemp_L (∪))]. }
  by rewrite !insert_insert_eq.
Qed.

Lemma add_twice_witness :
  Versions.add "1.0" "1.0" None ["latest"] false latest_on_1_0
  = (Ok (entry "1.0" ["latest"]), latest_on_1_0).
Proof.
  apply (add_twice ∅ latest_on_1_0 "1.0" "1.0" None ["latest"] false
           (entry "1.0" ["latest"])).
  by_evaluation.
Defined.

(** * Invariants of the registry and loading *)

Section VersionsInvariant.
Import Versions.

Lemma entry_wf v : VersionInfo.invalid_name v = false → VersionInfo.wf (entry v []).
Proof.
  intros Hv. split_and!; [done| |]; cbn.
  - intros a Ha. by apply elem_of_empty in Ha.
  - apply not_elem_of_empty.
Qed.

Lemma well_keyed_with_component c (d : registry) :
  well_keyed d → well_keyed (with_component c d).
Proof.
  intros Hd c0 b k e Hc Hk. unfold with_component in Hc.
  case_decide; [by eapply Hd|].
  destruct (decide (c = c0)) as [<-|Hne].
  - rewrite lookup_insert_eq in Hc. injection Hc as <-.
    by rewrite lookup_empty in Hk.
  - rewrite lookup_insert_ne in Hc by done. by eapply Hd.
Qed.

Lemma well_keyed_insert (d : registry) c (b : bucket) k e :
  well_keyed d →
  (∀ k' e', b !! k' = Some e' → VersionInfo.version e' = k' ∧ VersionInfo.wf e') →
  VersionInfo.version e = k → VersionInfo.wf e →
  well_keyed (<[c := <[k := e]> b]> d).
Proof.
  intros Hd Hb Hk Hwf c0 b0 k0 e0 Hc0 Hk0.
  destruct (decide (c = c0)) as [<-|Hne].
  - rewrite lookup_insert_eq in Hc0. injection Hc0 as <-.
    destruct (decide (k = k0)) as [<-|Hnk].
    + rewrite lookup_insert_eq in Hk0. by injection Hk0 as <-.
    + rewrite lookup_insert_ne in Hk0 by done. by apply Hb.
  - rewrite lookup_insert_ne in Hc0 by done. by eapply Hd.
Qed.

Lemma bucket_of_well_keyed (d : registry) c k e :
  well_keyed d → bucket_of d c !! k = Some e →
  VersionInfo.version e = k ∧ VersionInfo.wf e.
Proof.
  intros Hd. unfold bucket_of. destruct (d !! c) as [b|] eqn:Hc; cbn.
  - intros Hk. by eapply Hd.
  - by rewrite lookup_empty.
Qed.

Lemma add_well_keyed (d : registry) c v ti al u :
  well_keyed d → well_keyed (add c v ti al u d).2.
Proof.
  intros Hd. destruct (add_state d c v ti al u) as [->|(e' & -> & Hhow)].
  { by apply well_keyed_with_component. }
  destruct (bucket_of d c !! v) as [e0|] eqn:Hv.
  - destruct Hhow as [r Hup].
    destruct (bucket_of_well_keyed d c v e0 Hd Hv) as [Hver Hwf].
    apply well_keyed_insert;
      [done|intros k' e1 Hk'; by apply (bucket_of_well_keyed d c)| |].
    + by rewrite (update_version _ _ _ _ _ Hup).
    + by eapply update_wf.
  - apply init_ok_iff in Hhow as Hshape. destruct Hshape as (_ & _ & _ & Hshape).
    apply well_keyed_insert;
      [done|intros k' e1 Hk'; by apply (bucket_of_well_keyed d c)| |].
    + by rewrite Hshape.
    + by eapply init_wf.
Qed.




(** One step of loading: the entries of a component that carry no alias
    are stored one after the other under their version. *)
Lemma load_alias_free c (es : list VersionInfo.t) :
  Forall (λ e, VersionInfo.wf e ∧ VersionInfo.aliases e = ∅) es →
  ∀ (s : registry) (b : bucket), s !! c = Some b →
  for_each (VersionInfo.to_json <$> es) (λ version_data,
      ver ← lift (VersionInfo.from_json version_data);
      let version_str := VersionInfo.version ver in
      d ← get;
      lift (_ensure_unique_aliases d c version_str
              (elements (VersionInfo.aliases ver)) false);;
      setitem_entry c version_str ver) s
  = (Ok (),
     <[c := foldl (λ b e, <[VersionInfo.version e := loaded e]> b) b es]> s).
Proof.
  induction 1 as [|e es [Hwf Hal] _ IH]; intros s b Hc.
  - cbn. by rewrite insert_id.
  - cbn [fmap list_fmap for_each foldl].
    bind_step. bind_step. unfold lift at 1.
    rewrite from_json_to_json by done.
    bind_step. unfold get at 1.
    bind_step. unfold lift at 1.
    assert (VersionInfo.aliases (loaded e) = ∅) as Hal'.
    { unfold loaded. by destruct (truthy _). }
    assert (VersionInfo.version (loaded e) = VersionInfo.version e) as Hv'.
    { unfold loaded. by destruct (truthy _). }
    rewrite Hal', elements_empty, Hv'.
    rewrite (ensure_unique_in_component s c _ [] false b Hc).
    rewrite (setitem_entry_run _ _ _ _ b Hc).
    rewrite (IH _ (<[VersionInfo.version e := loaded e]> b))
      by apply lookup_insert_eq.
    by rewrite insert_insert_eq.
Qed.

End VersionsInvariant.

(** X15: [add] keeps every entry stored under its own version string and
    satisfying the invariant of [VersionInfo], in every outcome. *)
Theorem add_keeps_well_keyed (d : gmap string (gmap string VersionInfo.t))
    (c v : string) (ti : option string) (al : list string) (u : bool) :
  well_keyed d → well_keyed (Versions.add c v ti al u d).2.
Proof. apply add_well_keyed. Qed.

Lemma add_keeps_well_keyed_witness :
  well_keyed (Versions.add "1.0" "1.0" (Some "1.0.1") ["greatest"] false ∅).2.
Proof.
  apply (add_keeps_well_keyed ∅ "1.0" "1.0" (Some "1.0.1") ["greatest"] false).
  intros c b k e Hc. by rewrite lookup_empty in Hc.
Defined.



(** X17: [from_json] reads a document with one component whose entries carry no
    alias: the entries are stored under their version, a later entry
    replacing an earlier one of the same version, and falsy properties come
    back as [None]. *)
Theorem from_json_alias_free (c : string) (es : list VersionInfo.t) :
  Forall (λ e, VersionInfo.wf e ∧ VersionInfo.aliases e = ∅) es →
  Versions.from_json (PDict [(c, PList (VersionInfo.to_json <$> es))])
  = Ok {[ c := foldl (λ b e, <[VersionInfo.version e := loaded e]> b) ∅ es ]}.
Proof.
  intros Hes. unfold Versions.from_json. cbn [Versions.items mbind result_bind].
  unfold Versions.from_json_body. cbn [for_each fst snd].
  bind_step. bind_step. rewrite ensure_component_run.
  bind_step. unfold lift at 1. cbn [py_iter].
  rewrite (load_alias_free c es Hes _ ∅) by apply with_component_lookup.
  cbn. rewrite insert_with_component. by rewrite insert_empty.
Qed.

Lemma from_json_alias_free_witness :
  Versions.from_json
    (PDict [("docs", PList (VersionInfo.to_json <$> [entry "2.0" []; entry "1.0" []]))])
  = Ok {[ "docs" := foldl (λ b e, <[VersionInfo.version e := loaded e]> b) ∅
                          [entry "2.0" []; entry "1.0" []] ]}.
Proof.
  apply (from_json_alias_free "docs" [entry "2.0" []; entry "1.0" []]).
  apply Forall_cons. split.
  { split; [apply entry_wf; reflexivity|reflexivity]. }
  apply Forall_cons. split.
  { split; [apply entry_wf; reflexivity|reflexivity]. }
  constructor.
Defined.

(** X18: [from_json] rejects a document whose first entry carries an alias and
    is not named like its component: loading raises [ValueError] for one of
    the aliases of that entry, whatever follows in the document. *)
Theorem from_json_alias_needs_component_name (c : string) (e : VersionInfo.t)
    (rest : list pyval) (others : list (string * pyval)) :
  VersionInfo.wf e →
  VersionInfo.aliases e ≠ ∅ →
  c ≠ VersionInfo.version e →
  ∃ a, a ∈ VersionInfo.aliases e
       ∧ Versions.from_json
           (PDict ((c, PList (VersionInfo.to_json e :: rest)) :: others))
         = Err (ValueError (AliasIsVersion a c)).
Proof.
  intros Hwf Hal Hne.
  destruct (elements (VersionInfo.aliases e)) as [|a l] eqn:Hel.
  { apply elements_empty_inv, leibniz_equiv in Hel. done. }
  exists a. split.
  { apply elem_of_elements. rewrite Hel. by left. }
  unfold Versions.from_json. cbn [Versions.items mbind result_bind].
  unfold Versions.from_json_body. cbn [for_each fst snd].
  bind_step. bind_step. rewrite ensure_component_run.
  bind_step. unfold lift at 1. cbn [py_iter for_each].
  bind_step. bind_step. unfold lift at 1.
  rewrite from_json_to_json by done.
  bind_step. unfold get at 1.
  bind_step. unfold lift at 1.
  assert (VersionInfo.aliases (loaded e) = VersionInfo.aliases e) as ->.
  { unfold loaded. by destruct (truthy _). }
  assert (VersionInfo.version (loaded e) = VersionInfo.version e) as ->.
  { unfold loaded. by destruct (truthy _). }
  rewrite Hel.
  rewrite (ensure_unique_in_component _ c _ (a :: l) false _
             (with_component_lookup c ∅)).
  by rewrite decide_False by done.
Qed.

Lemma from_json_alias_needs_component_name_witness :
  ∃ a, a ∈ VersionInfo.aliases (entry "1.0" ["latest"])
       ∧ Versions.from_json
           (PDict (("docs", PList (VersionInfo.to_json (entry "1.0" ["latest"]) :: []))
                   :: []))
         = Err (ValueError (AliasIsVersion a "docs")).
Proof.
  apply (from_json_alias_needs_component_name "docs" (entry "1.0" ["latest"]) [] []).
  - split_and!.
    + reflexivity.
    + intros a Ha. apply elem_of_list_to_set, list_elem_of_singleton in Ha.
      subst a. reflexivity.
    + apply (bool_decide_unpack _). vm_compute. exact I.
  - intros Habs. apply (f_equal elements) in Habs. vm_compute in Habs.
    discriminate Habs.
  - discriminate.
Defined.

(** X19: Iterating the registry, and with it [to_json], works on the empty
    registry only: it yields nothing there, and raises [AttributeError] as
    soon as the registry has a component. *)
Theorem iteration_only_when_empty (loose_compare : string → string → comparison)
    (d : gmap string (gmap string VersionInfo.t)) :
  Versions.__iter__ loose_compare d
    = (if decide (d = ∅) then Ok [] else Err AttributeError)
  ∧ Versions.to_json loose_compare d
    = (if decide (d = ∅) then Ok (PList []) else Err AttributeError).
Proof.
  case_decide as Hd.
  - subst d. unfold Versions.to_json. by rewrite iter_empty.
  - unfold Versions.to_json. by rewrite iter_nonempty.
Qed.

(** X20: [Versions.update] raises [TypeError] on every input, because [find] is
    given [strict] twice, and leaves the registry as it was. *)
Theorem registry_update_raises_type_error
    (d : gmap string (gmap string VersionInfo.t)) (c i : string)
    (ti : option string) (al : list string) (u : bool) :
  Versions.update c i ti al u d = (Err TypeError, d).
Proof. reflexivity. Qed.

(** X21: [_remove_by_key] with a one-element key deletes the whole component of
    that name and returns its bucket ([KeyError] when there is none); with a
    two-element key it raises and leaves the registry as it was. *)
Theorem remove_by_key_drops_component
    (d : gmap string (gmap string VersionInfo.t)) (k a : string) :
  Versions._remove_by_key [k] d
    = match d !! k with
      | Some b => (Ok (Versions.RemovedItem b), delete k d)
      | None => (Err (KeyError k), d)
      end
  ∧ Versions._remove_by_key [k; a] d
    = match d !! k with
      | Some _ => (Err AttributeError, d)
      | None => (Err (KeyError k), d)
      end.
Proof.
  unfold Versions._remove_by_key. cbn. unfold mbind, M_bind, lift, Versions.item. cbn.
  unfold Versions.getitem_data, mbind, M_bind, get.
  rewrite decide_True by done. rewrite decide_False by done.
  by destruct (d !! k).
Qed.
